(** * BrowserOptions: the Chrome options helper of the SauceDemo test suite

    Shallow embedding of
    [SauceDemo_Test_Automation/resources/libraries/BrowserOptions.py].

    The Python method builds a selenium [Options] object, stores a
    preferences dictionary under the experimental option ["prefs"], appends
    five command-line flags and returns the object.  Python objects are
    mutable and passed by reference, so the embedding keeps an explicit
    object store: every dictionary, list and instance lives at a location
    of the store and values only carry references to them. *)

From stdpp Require Import gmap strings list fin_maps relations.

Open Scope Z_scope.
Open Scope string_scope.

(** ** Python values and objects *)

Abbreviation loc := positive.

(** Immediate values; containers and instances are reached through [VRef]. *)
Inductive value :=
  | VNone
  | VBool (b : bool)
  | VInt (z : Z)
  | VStr (s : string)
  | VRef (l : loc).

(** Objects of the store.  Dictionaries are keyed by strings, the only keys
    this program uses. *)
Inductive object :=
  | ODict (d : gmap string value)
  | OList (xs : list value)
  | OInstance (cls : string) (attrs : gmap string value).

Inductive exn :=
  | ValueError (msg : string)
  | AttributeError (name : string)
  | TypeError (msg : string).

(** What lies outside the interpreter's memory. *)
Inductive io_event :=
  | NetworkCall (url : string)
  | FileWrite (path : string)
  | EnvRead (name : string).

(** The state threaded through the program: the object store, the trace of
    I/O performed so far, and the number of primitive operations executed. *)
Record state := State {
  heap : gmap loc object;
  io_log : list io_event;
  ticks : nat
}.

Definition tick (s : state) : state :=
  State (heap s) (io_log s) (S (ticks s)).

Definition with_heap (h : gmap loc object) (s : state) : state :=
  State h (io_log s) (ticks s).

(** ** The state and exception monad *)

Inductive outcome (A : Type) :=
  | Returned (a : A) (s : state)
  | Raised (e : exn) (s : state).
Arguments Returned {A} a s.
Arguments Raised {A} e s.

Definition M (A : Type) : Type := state -> outcome A.

Definition ret {A} (a : A) : M A := fun s => Returned a s.

Definition bind {A B} (m : M A) (k : A -> M B) : M B :=
  fun s => match m s with
           | Returned a s' => k a s'
           | Raised e s' => Raised e s'
           end.

Definition raise {A} (e : exn) : M A := fun s => Raised e s.

Notation "x <- m ;; k" := (bind m (fun x => k))
  (at level 100, m at next level, right associativity).
Notation "m ;;; k" := (bind m (fun _ => k))
  (at level 100, right associativity).

(** ** Primitive operations of the object store *)

(** A new object is placed at a location no live object occupies. *)
Definition alloc (o : object) : M value :=
  fun s =>
    let l := fresh (dom (heap s)) in
    Returned (VRef l) (tick (with_heap (<[l := o]> (heap s)) s)).

(** A dictionary display [{k1: v1, ...}]: entries are stored left to right,
    a later entry replacing an earlier one with the same key. *)
Definition dict_display (kvs : list (string * value)) : gmap string value :=
  foldl (fun d kv => <[kv.1 := kv.2]> d) ∅ kvs.

Definition new_dict (kvs : list (string * value)) : M value :=
  alloc (ODict (dict_display kvs)).

Definition new_list (xs : list value) : M value :=
  alloc (OList xs).

Definition new_instance (cls : string) : M value :=
  alloc (OInstance cls ∅).

(** [obj.name] *)
Definition getattr (obj : value) (name : string) : M value :=
  fun s =>
    match obj with
    | VRef l =>
        match heap s !! l with
        | Some (OInstance _ attrs) =>
            match attrs !! name with
            | Some v => Returned v (tick s)
            | None => Raised (AttributeError name) s
            end
        | _ => Raised (AttributeError name) s
        end
    | _ => Raised (AttributeError name) s
    end.

(** [obj.name = v] *)
Definition setattr (obj : value) (name : string) (v : value) : M unit :=
  fun s =>
    match obj with
    | VRef l =>
        match heap s !! l with
        | Some (OInstance cls attrs) =>
            Returned tt
              (tick (with_heap (<[l := OInstance cls (<[name := v]> attrs)]> (heap s)) s))
        | _ => Raised (AttributeError name) s
        end
    | _ => Raised (AttributeError name) s
    end.

(** [d[key] = v] *)
Definition dict_setitem (d : value) (key : string) (v : value) : M unit :=
  fun s =>
    match d with
    | VRef l =>
        match heap s !! l with
        | Some (ODict m) =>
            Returned tt (tick (with_heap (<[l := ODict (<[key := v]> m)]> (heap s)) s))
        | _ => Raised (TypeError "object does not support item assignment") s
        end
    | _ => Raised (TypeError "object does not support item assignment") s
    end.

(** [xs.append(v)] *)
Definition list_append (xs : value) (v : value) : M unit :=
  fun s =>
    match xs with
    | VRef l =>
        match heap s !! l with
        | Some (OList vs) =>
            Returned tt (tick (with_heap (<[l := OList (vs ++ [v])]> (heap s)) s))
        | _ => Raised (AttributeError "append") s
        end
    | _ => Raised (AttributeError "append") s
    end.

(** Python's truth test, as used by [if argument:]. *)
Definition truthy (h : gmap loc object) (v : value) : bool :=
  match v with
  | VNone => false
  | VBool b => b
  | VInt z => negb (Z.eqb z 0)
  | VStr s => negb (String.eqb s "")
  | VRef l =>
      match h !! l with
      | Some (ODict d) => negb (bool_decide (d = ∅))
      | Some (OList xs) => negb (bool_decide (xs = []))
      | _ => true
      end
  end.

(** ** The selenium options class *)

(** Modelled from the spec: [Options] is imported from the selenium package
    ([selenium.webdriver.chrome.options]), which is a dependency of the
    repository and not part of its sources.  The spec's data model describes
    the object as a preferences map together with an ordered sequence of
    argument flags; the definitions below follow selenium's class chain
    [BaseOptions] / [ArgOptions] / [ChromiumOptions] / [Options]: the
    constructor fills the instance attributes with fresh containers,
    [add_experimental_option] stores a value under a name in the
    experimental-options dictionary, and [add_argument] appends to the
    arguments list, rejecting a false argument with [ValueError]. *)
Module Selenium.

Definition DesiredCapabilities_CHROME : list (string * value) :=
  [("browserName", VStr "chrome")].

(** [DesiredCapabilities.CHROME.copy()] *)
Definition default_capabilities (self : value) : M value :=
  new_dict DesiredCapabilities_CHROME.

(** [self._caps[name] = value] *)
Definition set_capability (self : value) (name : string) (v : value) : M unit :=
  caps <- getattr self "_caps" ;;
  dict_setitem caps name v.

Definition BaseOptions_init (self : value) : M unit :=
  caps <- default_capabilities self ;;
  setattr self "_caps" caps ;;;
  setattr self "_proxy" VNone ;;;
  set_capability self "pageLoadStrategy" (VStr "normal") ;;;
  setattr self "mobile_options" VNone.

Definition ArgOptions_init (self : value) : M unit :=
  BaseOptions_init self ;;;
  arguments <- new_list [] ;;
  setattr self "_arguments" arguments ;;;
  setattr self "_ignore_local_proxy" (VBool false).

Definition ChromiumOptions_init (self : value) : M unit :=
  ArgOptions_init self ;;;
  setattr self "_binary_location" (VStr "") ;;;
  extension_files <- new_list [] ;;
  setattr self "_extension_files" extension_files ;;;
  extensions <- new_list [] ;;
  setattr self "_extensions" extensions ;;;
  experimental_options <- new_dict [] ;;
  setattr self "_experimental_options" experimental_options ;;;
  setattr self "_debugger_address" VNone.

(** [Options()] *)
Definition Options : M value :=
  self <- new_instance "Options" ;;
  ChromiumOptions_init self ;;;
  ret self.

(** [self._experimental_options[name] = value] *)
Definition add_experimental_option (self : value) (name : string) (v : value) : M unit :=
  experimental_options <- getattr self "_experimental_options" ;;
  dict_setitem experimental_options name v.

(** [if argument: self._arguments.append(argument)
     else: raise ValueError("argument can not be null")] *)
Definition add_argument (self : value) (argument : value) : M unit :=
  fun s =>
    if truthy (heap s) argument
    then (arguments <- getattr self "_arguments" ;;
          list_append arguments argument) s
    else raise (ValueError "argument can not be null") s.

End Selenium.

(** ** BrowserOptions.py *)

(** The literal of lines 14-21. *)
Definition prefs_literal : list (string * value) :=
  [ ("credentials_enable_service", VBool false);
    ("profile.password_manager_enabled", VBool false);
    ("profile.default_content_setting_values.notifications", VInt 2);
    ("profile.password_manager_leak_detection", VBool false);
    ("password_manager_leak_detection", VBool false) ].

(** [BrowserOptions.get_chrome_options_with_disabled_popups(self)] *)
Definition get_chrome_options_with_disabled_popups (self : value) : M value :=
  options <- Selenium.Options ;;
  prefs <- new_dict prefs_literal ;;
  Selenium.add_experimental_option options "prefs" prefs ;;;
  Selenium.add_argument options (VStr "--disable-blink-features=AutomationControlled") ;;;
  Selenium.add_argument options (VStr "--disable-extensions") ;;;
  Selenium.add_argument options (VStr "--disable-popup-blocking") ;;;
  Selenium.add_argument options (VStr "--disable-infobars") ;;;
  Selenium.add_argument options (VStr "--disable-save-password-bubble") ;;;
  ret options.

(** The library call repeated, once per receiver of [selfs]; the results are
    collected in call order. *)
Fixpoint call_each (selfs : list value) : M (list value) :=
  match selfs with
  | [] => ret []
  | self :: rest =>
      r <- get_chrome_options_with_disabled_popups self ;;
      rs <- call_each rest ;;
      ret (r :: rs)
  end.

(** ** Callers of the library *)

(** A caller that takes the returned object and adds one more flag to it,
    [options = lib.get_chrome_options_with_disabled_popups();
     options.add_argument(flag)]. *)
Definition extended_by (self : value) (flag : string) : M value :=
  options <- get_chrome_options_with_disabled_popups self ;;
  Selenium.add_argument options (VStr flag) ;;;
  ret options.

(** A caller that asks for two configurations and then customises the
    first one only, with one more flag and one more experimental option. *)
Definition customise_first (self1 self2 : value) (flag name : string) (v : value)
  : M (value * value) :=
  first <- get_chrome_options_with_disabled_popups self1 ;;
  second <- get_chrome_options_with_disabled_popups self2 ;;
  Selenium.add_argument first (VStr flag) ;;;
  Selenium.add_experimental_option first name v ;;;
  ret (first, second).

(** ** Observing the store *)

(** The dictionary, list or instance attributes a value refers to. *)
Definition dict_of (h : gmap loc object) (v : value) : option (gmap string value) :=
  match v with
  | VRef l => match h !! l with Some (ODict d) => Some d | _ => None end
  | _ => None
  end.

Definition list_of (h : gmap loc object) (v : value) : option (list value) :=
  match v with
  | VRef l => match h !! l with Some (OList xs) => Some xs | _ => None end
  | _ => None
  end.

Definition attrs_of (h : gmap loc object) (v : value) : option (gmap string value) :=
  match v with
  | VRef l => match h !! l with Some (OInstance _ a) => Some a | _ => None end
  | _ => None
  end.

(** [options.experimental_options] as a dictionary. *)
Definition experimental_options_of (h : gmap loc object) (options : value)
  : option (gmap string value) :=
  a ← attrs_of h options; r ← a !! "_experimental_options"; dict_of h r.

(** [options.experimental_options["prefs"]] as a dictionary. *)
Definition preferences (h : gmap loc object) (options : value)
  : option (gmap string value) :=
  e ← experimental_options_of h options; p ← e !! "prefs"; dict_of h p.

(** [options.arguments] as a list. *)
Definition argumentFlags (h : gmap loc object) (options : value)
  : option (list value) :=
  a ← attrs_of h options; r ← a !! "_arguments"; list_of h r.

(** The store read out as a tree, following references to the given depth.
    Two values are value-equal when they read out as the same tree. *)
#[local] Set Warnings "-register-all".
Inductive tree :=
  | TNone
  | TBool (b : bool)
  | TInt (z : Z)
  | TStr (s : string)
  | TDict (d : gmap string tree)
  | TList (ts : list tree)
  | TInstance (cls : string) (attrs : gmap string tree)
  | TCut.

Definition reify_value (rec : loc -> tree) (v : value) : tree :=
  match v with
  | VNone => TNone
  | VBool b => TBool b
  | VInt z => TInt z
  | VStr s => TStr s
  | VRef l => rec l
  end.

Fixpoint reify_loc (depth : nat) (h : gmap loc object) (l : loc) : tree :=
  match depth with
  | O => TCut
  | S n =>
      match h !! l with
      | Some (ODict d) => TDict (reify_value (reify_loc n h) <$> d)
      | Some (OList xs) => TList (reify_value (reify_loc n h) <$> xs)
      | Some (OInstance cls a) => TInstance cls (reify_value (reify_loc n h) <$> a)
      | None => TCut
      end
  end.

Definition reify (depth : nat) (h : gmap loc object) (v : value) : tree :=
  reify_value (reify_loc depth h) v.

(** The attributes of an instance read out as a tree. *)
Definition tree_attrs (t : tree) : gmap string tree :=
  match t with
  | TInstance _ a => a
  | _ => ∅
  end.

(** References held directly by a value or an object. *)
Definition value_refs (v : value) : list loc :=
  match v with VRef l => [l] | _ => [] end.

Definition object_refs (o : object) : list loc :=
  match o with
  | ODict d => map_to_list d ≫= (fun kv => value_refs kv.2)
  | OList xs => xs ≫= value_refs
  | OInstance _ a => map_to_list a ≫= (fun kv => value_refs kv.2)
  end.

Definition points_to (h : gmap loc object) (l l' : loc) : Prop :=
  ∃ o, h !! l = Some o ∧ l' ∈ object_refs o.

(** The objects a value owns: everything reachable from it. *)
Definition reachable (h : gmap loc object) (v : value) (l : loc) : Prop :=
  ∃ r, v = VRef r ∧ rtc (points_to h) r l.

(** [wp m s Q]: run from [s], [m] returns (it does not raise) and the result
    and final state satisfy [Q]. *)
Definition wp {A} (m : M A) (s : state) (Q : A -> state -> Prop) : Prop :=
  match m s with
  | Returned a s' => Q a s'
  | Raised _ _ => False
  end.

(** ** The shape of the store after a call *)

(** The seven objects one call creates: the [Options] instance, its
    capabilities dictionary, its arguments list, the two extension lists,
    the experimental-options dictionary and the preferences dictionary. *)
Record cells := Cells {
  c_self : loc;
  c_caps : loc;
  c_args : loc;
  c_extf : loc;
  c_ext : loc;
  c_exp : loc;
  c_prefs : loc
}.

(** The six objects of the constructor, and all seven. *)
Definition options_cells (c : cells) : list loc :=
  [c_self c; c_caps c; c_args c; c_extf c; c_ext c; c_exp c].

Definition cells_list (c : cells) : list loc :=
  options_cells c ++ [c_prefs c].

Definition caps_dict : gmap string value :=
  <["pageLoadStrategy" := VStr "normal"]> (dict_display Selenium.DesiredCapabilities_CHROME).

Definition options_attrs (c : cells) : gmap string value :=
  <["_debugger_address" := VNone]>
  (<["_experimental_options" := VRef (c_exp c)]>
  (<["_extensions" := VRef (c_ext c)]>
  (<["_extension_files" := VRef (c_extf c)]>
  (<["_binary_location" := VStr ""]>
  (<["_ignore_local_proxy" := VBool false]>
  (<["_arguments" := VRef (c_args c)]>
  (<["mobile_options" := VNone]>
  (<["_proxy" := VNone]>
  (<["_caps" := VRef (c_caps c)]> ∅))))))))).

(** The store once [Options()] has returned ... *)
Definition default_store (pre : gmap loc object) (c : cells) : gmap loc object :=
  <[c_self c := OInstance "Options" (options_attrs c)]>
  (<[c_caps c := ODict caps_dict]>
  (<[c_args c := OList []]>
  (<[c_extf c := OList []]>
  (<[c_ext c := OList []]>
  (<[c_exp c := ODict ∅]> pre))))).

Definition the_flags : list value :=
  [ VStr "--disable-blink-features=AutomationControlled";
    VStr "--disable-extensions";
    VStr "--disable-popup-blocking";
    VStr "--disable-infobars";
    VStr "--disable-save-password-bubble" ].

(** ... and once the whole method has. *)
Definition final_store (pre : gmap loc object) (c : cells) : gmap loc object :=
  <[c_self c := OInstance "Options" (options_attrs c)]>
  (<[c_caps c := ODict caps_dict]>
  (<[c_args c := OList the_flags]>
  (<[c_extf c := OList []]>
  (<[c_ext c := OList []]>
  (<[c_exp c := ODict (<["prefs" := VRef (c_prefs c)]> ∅)]>
  (<[c_prefs c := ODict (dict_display prefs_literal)]> pre)))))).

Definition fresh_cells (pre : gmap loc object) (c : cells) : Prop :=
  NoDup (cells_list c) ∧ Forall (fun l => pre !! l = None) (cells_list c).

(** A store owns the objects of [c] when each of the seven cells holds the
    object the method leaves there. *)
Definition owns (h : gmap loc object) (c : cells) : Prop :=
  h !! c_self c = Some (OInstance "Options" (options_attrs c)) ∧
  h !! c_caps c = Some (ODict caps_dict) ∧
  h !! c_args c = Some (OList the_flags) ∧
  h !! c_extf c = Some (OList []) ∧
  h !! c_ext c = Some (OList []) ∧
  h !! c_exp c = Some (ODict (<["prefs" := VRef (c_prefs c)]> ∅)) ∧
  h !! c_prefs c = Some (ODict (dict_display prefs_literal)).

(** The same for the six objects of a bare [Options()]. *)
Definition owns_default (h : gmap loc object) (c : cells) : Prop :=
  h !! c_self c = Some (OInstance "Options" (options_attrs c)) ∧
  h !! c_caps c = Some (ODict caps_dict) ∧
  h !! c_args c = Some (OList []) ∧
  h !! c_extf c = Some (OList []) ∧
  h !! c_ext c = Some (OList []) ∧
  h !! c_exp c = Some (ODict ∅).

(** The seven objects after a caller has gone on to change the arguments
    list into [xs] and the experimental-options dictionary into [d]. *)
Definition owns_with (h : gmap loc object) (c : cells)
    (xs : list value) (d : gmap string value) : Prop :=
  h !! c_self c = Some (OInstance "Options" (options_attrs c)) ∧
  h !! c_caps c = Some (ODict caps_dict) ∧
  h !! c_args c = Some (OList xs) ∧
  h !! c_extf c = Some (OList []) ∧
  h !! c_ext c = Some (OList []) ∧
  h !! c_exp c = Some (ODict d) ∧
  h !! c_prefs c = Some (ODict (dict_display prefs_literal)).

(** ** The configuration of the specification *)

(** The preferences table. *)
Definition spec_preferences : gmap string value :=
  {[ "credentials_enable_service" := VBool false;
     "profile.password_manager_enabled" := VBool false;
     "profile.default_content_setting_values.notifications" := VInt 2;
     "profile.password_manager_leak_detection" := VBool false;
     "password_manager_leak_detection" := VBool false ]}.

Definition spec_preference_keys : list string :=
  [ "credentials_enable_service";
    "profile.password_manager_enabled";
    "profile.default_content_setting_values.notifications";
    "profile.password_manager_leak_detection";
    "password_manager_leak_detection" ].

(** The ordered argument flags. *)
Definition spec_flags : list string :=
  [ "--disable-blink-features=AutomationControlled";
    "--disable-extensions";
    "--disable-popup-blocking";
    "--disable-infobars";
    "--disable-save-password-bubble" ].

(** An options object read out as a tree, given the trees of its
    experimental options and of its arguments; every other attribute is as
    the constructor leaves it. *)
Definition options_tree (experimental : gmap string tree) (arguments : list tree) : tree :=
  TInstance "Options"
    {[ "_caps" := TDict {[ "browserName" := TStr "chrome";
                           "pageLoadStrategy" := TStr "normal" ]};
       "_proxy" := TNone;
       "mobile_options" := TNone;
       "_arguments" := TList arguments;
       "_ignore_local_proxy" := TBool false;
       "_binary_location" := TStr "";
       "_extension_files" := TList [];
       "_extensions" := TList [];
       "_experimental_options" := TDict experimental;
       "_debugger_address" := TNone ]}.

Definition preferences_tree : gmap string tree :=
  {[ "credentials_enable_service" := TBool false;
     "profile.password_manager_enabled" := TBool false;
     "profile.default_content_setting_values.notifications" := TInt 2;
     "profile.password_manager_leak_detection" := TBool false;
     "password_manager_leak_detection" := TBool false ]}.

(** The tree of the configuration the method returns. *)
Definition disabled_popups_tree : tree :=
  options_tree {[ "prefs" := TDict preferences_tree ]} (TStr <$> spec_flags).

(** ** Reasoning about runs *)

Lemma wp_returned {A} (m : M A) s Q :
  wp m s Q ↔ ∃ a s', m s = Returned a s' ∧ Q a s'.
Proof.
  unfold wp. split.
  - destruct (m s) as [a s'|e s']; [eauto | tauto].
  - intros (a & s' & -> & HQ). exact HQ.
Qed.

Lemma wp_mono {A} (m : M A) s (Q Q' : A -> state -> Prop) :
  wp m s Q → (∀ a s', Q a s' → Q' a s') → wp m s Q'.
Proof. unfold wp. destruct (m s); [auto | tauto]. Qed.

Lemma wp_ret {A} (a : A) s (Q : A -> state -> Prop) : Q a s → wp (ret a) s Q.
Proof. exact id. Qed.

Lemma wp_bind {A B} (m : M A) (k : A -> M B) s (Q : B -> state -> Prop) :
  wp m s (fun a s' => wp (k a) s' Q) → wp (bind m k) s Q.
Proof. unfold wp, bind. destruct (m s); exact id. Qed.

Lemma wp_alloc o s (Q : value -> state -> Prop) :
  (∀ l, heap s !! l = None →
        Q (VRef l) (State (<[l := o]> (heap s)) (io_log s) (S (ticks s)))) →
  wp (alloc o) s Q.
Proof.
  intros H. unfold wp, alloc. apply H.
  apply not_elem_of_dom, is_fresh.
Qed.

Lemma wp_getattr l name cls attrs v s (Q : value -> state -> Prop) :
  heap s !! l = Some (OInstance cls attrs) →
  attrs !! name = Some v →
  Q v (State (heap s) (io_log s) (S (ticks s))) →
  wp (getattr (VRef l) name) s Q.
Proof. intros Hl Hn HQ. unfold wp, getattr. rewrite Hl, Hn. exact HQ. Qed.

Lemma wp_setattr l name cls attrs v s (Q : unit -> state -> Prop) :
  heap s !! l = Some (OInstance cls attrs) →
  Q tt (State (<[l := OInstance cls (<[name := v]> attrs)]> (heap s))
          (io_log s) (S (ticks s))) →
  wp (setattr (VRef l) name v) s Q.
Proof. intros Hl HQ. unfold wp, setattr. rewrite Hl. exact HQ. Qed.

Lemma wp_dict_setitem l key d v s (Q : unit -> state -> Prop) :
  heap s !! l = Some (ODict d) →
  Q tt (State (<[l := ODict (<[key := v]> d)]> (heap s)) (io_log s) (S (ticks s))) →
  wp (dict_setitem (VRef l) key v) s Q.
Proof. intros Hl HQ. unfold wp, dict_setitem. rewrite Hl. exact HQ. Qed.

Lemma wp_list_append l xs v s (Q : unit -> state -> Prop) :
  heap s !! l = Some (OList xs) →
  Q tt (State (<[l := OList (xs ++ [v])]> (heap s)) (io_log s) (S (ticks s))) →
  wp (list_append (VRef l) v) s Q.
Proof. intros Hl HQ. unfold wp, list_append. rewrite Hl. exact HQ. Qed.

(** A non-empty string passes the truth test of [add_argument], whatever the
    store. *)
Lemma wp_add_argument l cls attrs la xs flag s (Q : unit -> state -> Prop) :
  flag ≠ "" →
  heap s !! l = Some (OInstance cls attrs) →
  attrs !! "_arguments" = Some (VRef la) →
  heap s !! la = Some (OList xs) →
  Q tt (State (<[la := OList (xs ++ [VStr flag])]> (heap s))
          (io_log s) (S (S (ticks s)))) →
  wp (Selenium.add_argument (VRef l) (VStr flag)) s Q.
Proof.
  intros Hne Hl Ha Hla HQ. unfold wp, Selenium.add_argument.
  cbn [truthy].
  destruct (String.eqb_spec flag "") as [->|_]; [done|]. cbn [negb].
  fold (wp (bind (getattr (VRef l) "_arguments")
              (fun a => list_append a (VStr flag))) s Q).
  apply wp_bind. eapply wp_getattr; [exact Hl | exact Ha |].
  eapply wp_list_append; [exact Hla | exact HQ].
Qed.

Lemma wp_add_experimental_option l cls attrs le d name v s
    (Q : unit -> state -> Prop) :
  heap s !! l = Some (OInstance cls attrs) →
  attrs !! "_experimental_options" = Some (VRef le) →
  heap s !! le = Some (ODict d) →
  Q tt (State (<[le := ODict (<[name := v]> d)]> (heap s))
          (io_log s) (S (S (ticks s)))) →
  wp (Selenium.add_experimental_option (VRef l) name v) s Q.
Proof.
  intros Hl Ha Hle HQ. unfold Selenium.add_experimental_option.
  apply wp_bind. eapply wp_getattr; [exact Hl | exact Ha |].
  eapply wp_dict_setitem; [exact Hle | exact HQ].
Qed.

Ltac drop_repeated :=
  repeat match goal with
  | H : ?a ≠ ?b, H' : ?a ≠ ?b |- _ => clear H'
  end.

Ltac split_fresh H :=
  cbn [heap] in H;
  repeat (let N := fresh "Hne" in apply lookup_insert_None in H as [H N]);
  drop_repeated.

Ltac lookup_heap :=
  cbn [heap]; repeat first
    [ rewrite lookup_insert_eq
    | rewrite lookup_insert_ne by congruence ];
  try reflexivity.

Ltac lookup_attr :=
  repeat first
    [ rewrite lookup_insert_eq
    | rewrite lookup_insert_ne by done ];
  reflexivity.

Ltac ext_heap :=
  apply map_eq; intros i;
  repeat lazymatch goal with
  | |- context [ (<[?l := _]> _) !! i ] =>
      destruct (decide (l = i)) as [<-|?];
      [ solve [congruence | lookup_heap]
      | rewrite ?(lookup_insert_ne _ l i) by assumption ]
  end; reflexivity.

Ltac in_list H :=
  repeat (apply elem_of_cons in H as [->|H]); [..| by apply elem_of_nil in H].

Ltac nodup_list :=
  repeat (apply NoDup_cons; split;
          [rewrite ?not_elem_of_cons; repeat split;
           first [congruence | apply not_elem_of_nil] |]);
  apply NoDup_nil_2.

Ltac wp_step :=
  cbn [heap io_log ticks];
  lazymatch goal with
  | |- wp (bind _ _) _ _ => apply wp_bind
  | |- wp (ret _) _ _ => apply wp_ret
  | |- wp (setattr _ _ _) _ _ => eapply wp_setattr; [lookup_heap|]
  | |- wp (getattr _ _) _ _ => eapply wp_getattr; [lookup_heap | lookup_attr |]
  | |- wp (dict_setitem _ _ _) _ _ => eapply wp_dict_setitem; [lookup_heap|]
  | |- wp (list_append _ _) _ _ => eapply wp_list_append; [lookup_heap|]
  | |- wp (Selenium.add_argument _ _) _ _ =>
      eapply wp_add_argument; [done | lookup_heap | lookup_attr | lookup_heap |]
  | |- wp (Selenium.add_experimental_option _ _ _) _ _ =>
      eapply wp_add_experimental_option; [lookup_heap | lookup_attr | lookup_heap |]
  end.

Ltac wp_alloc l H :=
  apply wp_alloc; intros l H; split_fresh H.

Ltac nodup_neqs H :=
  repeat (let N := fresh "Hne" in
          apply NoDup_cons in H as [N H];
          rewrite ?not_elem_of_cons in N;
          repeat (let N' := fresh "Hne" in destruct N as [N' N]);
          clear N);
  clear H.

Lemma Options_shape s :
  wp Selenium.Options s (fun r s' =>
    ∃ c, r = VRef (c_self c) ∧
         NoDup (options_cells c) ∧
         (∀ l, l ∈ options_cells c → heap s !! l = None) ∧
         s' = State (default_store (heap s) c) (io_log s) (ticks s + 18)).
Proof.
  destruct s as [h io t].
  unfold Selenium.Options, Selenium.ChromiumOptions_init,
    Selenium.ArgOptions_init, Selenium.BaseOptions_init,
    Selenium.default_capabilities, Selenium.set_capability,
    new_instance, new_dict, new_list.
  repeat wp_step. wp_alloc l1 H1.
  repeat wp_step. wp_alloc l2 H2.
  repeat wp_step. wp_alloc l3 H3.
  repeat wp_step. wp_alloc l4 H4.
  repeat wp_step. wp_alloc l5 H5.
  repeat wp_step. wp_alloc l6 H6.
  repeat wp_step.
  exists (Cells l1 l2 l3 l4 l5 l6 l1). unfold options_cells.
  cbn [c_self c_caps c_args c_extf c_ext c_exp heap io_log ticks].
  split; [reflexivity|]. split; [nodup_list|]. split.
  { intros l Hl. in_list Hl; assumption. }
  f_equal; [|lia].
  unfold default_store, options_attrs, caps_dict, dict_display.
  cbn [c_self c_caps c_args c_extf c_ext c_exp foldl fst snd
       Selenium.DesiredCapabilities_CHROME].
  ext_heap.
Qed.

Lemma call_shape self s :
  wp (get_chrome_options_with_disabled_popups self) s (fun r s' =>
    ∃ c, r = VRef (c_self c) ∧
         fresh_cells (heap s) c ∧
         s' = State (final_store (heap s) c) (io_log s) (ticks s + 31)).
Proof.
  unfold get_chrome_options_with_disabled_popups.
  apply wp_bind. eapply wp_mono; [apply Options_shape|].
  intros r s1 (c & -> & Hnd & Hfr & ->).
  destruct s as [h io t], c as [l1 l2 l3 l4 l5 l6 l0].
  unfold options_cells in Hnd, Hfr.
  cbn [c_self c_caps c_args c_extf c_ext c_exp heap io_log ticks] in *.
  assert (Hfr' := Hfr). nodup_neqs Hnd.
  unfold default_store, options_attrs, new_dict.
  cbn [c_self c_caps c_args c_extf c_ext c_exp].
  repeat wp_step. wp_alloc l7 H7.
  repeat wp_step.
  exists (Cells l1 l2 l3 l4 l5 l6 l7).
  split; [reflexivity|]. split.
  { unfold fresh_cells, cells_list, options_cells.
    cbn [c_self c_caps c_args c_extf c_ext c_exp c_prefs app]. split.
    - nodup_list.
    - rewrite Forall_forall. intros l Hl. in_list Hl;
        first [assumption | apply Hfr'; rewrite !elem_of_cons; tauto]. }
  f_equal; [|lia].
  unfold final_store, options_attrs, the_flags.
  cbn [c_self c_caps c_args c_extf c_ext c_exp c_prefs app].
  ext_heap.
Qed.

(** ** Consequences of the shape *)

Lemma final_store_owns pre c : fresh_cells pre c → owns (final_store pre c) c.
Proof.
  intros [Hnd _]. destruct c as [l1 l2 l3 l4 l5 l6 l7].
  unfold cells_list, options_cells in Hnd.
  cbn [c_self c_caps c_args c_extf c_ext c_exp c_prefs app] in Hnd.
  nodup_neqs Hnd. unfold owns, final_store.
  cbn [c_self c_caps c_args c_extf c_ext c_exp c_prefs].
  repeat split; lookup_heap.
Qed.

Lemma final_store_extends pre c : fresh_cells pre c → pre ⊆ final_store pre c.
Proof.
  intros [_ Hfr]. rewrite Forall_forall in Hfr.
  apply map_subseteq_spec. intros l o Hl.
  assert (l ∉ cells_list c) as Hn.
  { intros Hin. apply Hfr in Hin. congruence. }
  unfold cells_list, options_cells in Hn. cbn [app] in Hn.
  rewrite !not_elem_of_cons in Hn. unfold final_store.
  rewrite !lookup_insert_ne by (intros E; symmetry in E; tauto). exact Hl.
Qed.

Lemma owns_weaken h h' c : owns h c → h ⊆ h' → owns h' c.
Proof.
  unfold owns. intros (? & ? & ? & ? & ? & ? & ?) Hsub.
  repeat split; eapply lookup_weaken; eauto.
Qed.

Lemma dict_display_prefs : dict_display prefs_literal = spec_preferences.
Proof. reflexivity. Qed.

Lemma owns_experimental_options h c :
  owns h c →
  experimental_options_of h (VRef (c_self c)) = Some {[ "prefs" := VRef (c_prefs c) ]}.
Proof.
  intros (Hs & _ & _ & _ & _ & He & _).
  unfold experimental_options_of, attrs_of. rewrite Hs. cbn [mbind option_bind].
  unfold options_attrs. rewrite lookup_insert_ne by done.
  rewrite lookup_insert_eq. cbn [mbind option_bind dict_of]. rewrite He.
  reflexivity.
Qed.

Lemma owns_preferences h c :
  owns h c → preferences h (VRef (c_self c)) = Some spec_preferences.
Proof.
  intros H. unfold preferences. rewrite (owns_experimental_options _ _ H).
  destruct H as (_ & _ & _ & _ & _ & _ & Hp).
  cbn [mbind option_bind]. rewrite lookup_singleton_eq.
  cbn [mbind option_bind dict_of]. rewrite Hp, dict_display_prefs. reflexivity.
Qed.

Lemma owns_argumentFlags h c :
  owns h c → argumentFlags h (VRef (c_self c)) = Some (VStr <$> spec_flags).
Proof.
  intros (Hs & _ & Ha & _).
  unfold argumentFlags, attrs_of. rewrite Hs. cbn [mbind option_bind].
  unfold options_attrs. rewrite !lookup_insert_ne by done.
  rewrite lookup_insert_eq. cbn [mbind option_bind list_of]. rewrite Ha.
  reflexivity.
Qed.

Lemma reify_loc_unfold n h l :
  reify_loc (S n) h l =
  match h !! l with
  | Some (ODict d) => TDict (reify_value (reify_loc n h) <$> d)
  | Some (OList xs) => TList (reify_value (reify_loc n h) <$> xs)
  | Some (OInstance cls a) => TInstance cls (reify_value (reify_loc n h) <$> a)
  | None => TCut
  end.
Proof. reflexivity. Qed.

Lemma owns_reify n h c :
  owns h c → reify (S (S (S n))) h (VRef (c_self c)) = disabled_popups_tree.
Proof.
  intros (Hs & Hc & Ha & Hf & Hx & He & Hp).
  unfold reify. cbn [reify_value].
  rewrite reify_loc_unfold, Hs. unfold options_attrs.
  rewrite !fmap_insert, fmap_empty. cbn [reify_value].
  rewrite !reify_loc_unfold, Hc, Ha, Hf, Hx, He.
  rewrite !fmap_insert, fmap_empty. cbn [reify_value].
  rewrite reify_loc_unfold, Hp.
  reflexivity.
Qed.

Lemma owns_default_reify n h c :
  owns_default h c → reify (S (S (S n))) h (VRef (c_self c)) = options_tree ∅ [].
Proof.
  intros (Hs & Hc & Ha & Hf & Hx & He).
  unfold reify. cbn [reify_value].
  rewrite reify_loc_unfold, Hs. unfold options_attrs.
  rewrite !fmap_insert, fmap_empty. cbn [reify_value].
  rewrite !reify_loc_unfold, Hc, Ha, Hf, Hx, He.
  reflexivity.
Qed.

Lemma default_store_owns pre c :
  NoDup (options_cells c) → owns_default (default_store pre c) c.
Proof.
  intros Hnd. destruct c as [l1 l2 l3 l4 l5 l6 l7].
  unfold options_cells in Hnd.
  cbn [c_self c_caps c_args c_extf c_ext c_exp c_prefs] in Hnd.
  nodup_neqs Hnd. unfold owns_default, default_store.
  cbn [c_self c_caps c_args c_extf c_ext c_exp c_prefs].
  repeat split; lookup_heap.
Qed.

Lemma elem_of_dict_refs (d : gmap string value) l :
  l ∈ map_to_list d ≫= (fun kv => value_refs kv.2) ↔ ∃ k, d !! k = Some (VRef l).
Proof.
  rewrite list_elem_of_bind. split.
  - intros ([k v] & Hl & Hkv). apply elem_of_map_to_list in Hkv.
    destruct v; cbn in Hl; try (by apply elem_of_nil in Hl).
    apply list_elem_of_singleton in Hl as ->. eauto.
  - intros (k & Hk). exists (k, VRef l). split.
    + cbn. apply list_elem_of_singleton. reflexivity.
    + by apply elem_of_map_to_list.
Qed.

Lemma elem_of_list_refs (xs : list value) l :
  l ∈ xs ≫= value_refs ↔ VRef l ∈ xs.
Proof.
  rewrite list_elem_of_bind. split.
  - intros (v & Hl & Hv).
    destruct v; cbn in Hl; try (by apply elem_of_nil in Hl).
    by apply list_elem_of_singleton in Hl as ->.
  - intros H. exists (VRef l). split; [|exact H].
    cbn. apply list_elem_of_singleton. reflexivity.
Qed.

Lemma owns_is_Some h c l : owns h c → l ∈ cells_list c → is_Some (h !! l).
Proof.
  intros (? & ? & ? & ? & ? & ? & ?) Hl.
  unfold cells_list, options_cells in Hl. cbn [app] in Hl.
  in_list Hl; eauto.
Qed.

(** The seven cells are closed under the references their objects hold. *)
Lemma owns_closed h c l l' :
  owns h c → l ∈ cells_list c → points_to h l l' → l' ∈ cells_list c.
Proof.
  intros (Hs & Hc & Ha & Hf & Hx & He & Hp) Hl (o & Ho & Hin).
  unfold cells_list, options_cells in *. cbn [app] in *.
  in_list Hl.
  - rewrite Hs in Ho. injection Ho as <-. cbn [object_refs] in Hin.
    apply elem_of_dict_refs in Hin as (k & Hk). unfold options_attrs in Hk.
    repeat (rewrite lookup_insert in Hk; case_decide;
            [injection Hk as <- || discriminate Hk; rewrite !elem_of_cons; tauto|]).
    rewrite lookup_empty in Hk. discriminate.
  - rewrite Hc in Ho. injection Ho as <-. cbn [object_refs] in Hin.
    apply elem_of_dict_refs in Hin as (k & Hk). unfold caps_dict, dict_display in Hk.
    cbn [foldl Selenium.DesiredCapabilities_CHROME fst snd] in Hk.
    repeat (rewrite lookup_insert in Hk; case_decide; [discriminate Hk|]).
    rewrite lookup_empty in Hk. discriminate.
  - rewrite Ha in Ho. injection Ho as <-. cbn [object_refs] in Hin.
    apply elem_of_list_refs in Hin. unfold the_flags in Hin.
    repeat (apply elem_of_cons in Hin as [Hin'|Hin]; [discriminate Hin'|]).
    by apply elem_of_nil in Hin.
  - rewrite Hf in Ho. injection Ho as <-. cbn in Hin. by apply elem_of_nil in Hin.
  - rewrite Hx in Ho. injection Ho as <-. cbn in Hin. by apply elem_of_nil in Hin.
  - rewrite He in Ho. injection Ho as <-. cbn [object_refs] in Hin.
    apply elem_of_dict_refs in Hin as (k & Hk).
    rewrite lookup_insert in Hk. case_decide.
    + injection Hk as <-. rewrite !elem_of_cons. tauto.
    + rewrite lookup_empty in Hk. discriminate.
  - rewrite Hp in Ho. injection Ho as <-. cbn [object_refs] in Hin.
    apply elem_of_dict_refs in Hin as (k & Hk). unfold dict_display in Hk.
    cbn [foldl prefs_literal fst snd] in Hk.
    repeat (rewrite lookup_insert in Hk; case_decide; [discriminate Hk|]).
    rewrite lookup_empty in Hk. discriminate.
Qed.

Lemma owns_reachable h c l :
  owns h c → reachable h (VRef (c_self c)) l → l ∈ cells_list c.
Proof.
  intros Hown (r & [= <-] & Hrtc).
  assert (c_self c ∈ cells_list c) as Hin.
  { unfold cells_list, options_cells. apply elem_of_cons. by left. }
  revert Hrtc Hin. generalize (c_self c). intros x Hrtc.
  induction Hrtc as [x | x y z Hxy _ IH]; intros Hx; [exact Hx|].
  apply IH. eapply owns_closed; eauto.
Qed.

(** Every cell is reached from the returned instance. *)
Lemma owns_reaches h c l :
  owns h c → l ∈ cells_list c → reachable h (VRef (c_self c)) l.
Proof.
  intros (Hs & Hc & Ha & Hf & Hx & He & Hp) Hl.
  exists (c_self c). split; [reflexivity|].
  assert (∀ k l', options_attrs c !! k = Some (VRef l') →
                  points_to h (c_self c) l') as Hattr.
  { intros k l' Hk. exists (OInstance "Options" (options_attrs c)).
    split; [exact Hs|]. cbn [object_refs]. apply elem_of_dict_refs. eauto. }
  unfold cells_list, options_cells in Hl. cbn [app] in Hl.
  in_list Hl.
  - apply rtc_refl.
  - apply rtc_once, (Hattr "_caps"). unfold options_attrs. lookup_attr.
  - apply rtc_once, (Hattr "_arguments"). unfold options_attrs. lookup_attr.
  - apply rtc_once, (Hattr "_extension_files"). unfold options_attrs. lookup_attr.
  - apply rtc_once, (Hattr "_extensions"). unfold options_attrs. lookup_attr.
  - apply rtc_once, (Hattr "_experimental_options"). unfold options_attrs. lookup_attr.
  - eapply rtc_l; [apply (Hattr "_experimental_options"); unfold options_attrs; lookup_attr|].
    apply rtc_once. eexists. split; [exact He|]. cbn [object_refs].
    apply elem_of_dict_refs. exists "prefs". apply lookup_insert_eq.
Qed.

Lemma final_store_new pre c l :
  pre !! l = None → is_Some (final_store pre c !! l) → l ∈ cells_list c.
Proof.
  intros Hpre Hl. unfold cells_list, options_cells. cbn [app].
  unfold final_store in Hl.
  repeat (rewrite lookup_insert in Hl; case_decide;
          [subst; rewrite !elem_of_cons; tauto|]).
  rewrite Hpre in Hl. by destruct Hl.
Qed.

(** One call, summarised. *)
Lemma call_returns self s :
  ∃ c s',
    get_chrome_options_with_disabled_popups self s = Returned (VRef (c_self c)) s' ∧
    fresh_cells (heap s) c ∧
    owns (heap s') c ∧
    heap s' = final_store (heap s) c ∧
    io_log s' = io_log s ∧
    ticks s' = (ticks s + 31)%nat.
Proof.
  pose proof (call_shape self s) as H. apply wp_returned in H.
  destruct H as (r & s' & Hrun & c & -> & Hfr & ->).
  exists c. eexists. split; [exact Hrun|]. cbn [heap io_log ticks].
  split; [exact Hfr|]. split; [by apply final_store_owns|]. done.
Qed.

Lemma Options_returns s :
  ∃ c s',
    Selenium.Options s = Returned (VRef (c_self c)) s' ∧
    owns_default (heap s') c ∧
    io_log s' = io_log s.
Proof.
  pose proof (Options_shape s) as H. apply wp_returned in H.
  destruct H as (r & s' & Hrun & c & -> & Hnd & _ & ->).
  exists c. eexists. split; [exact Hrun|]. cbn [heap io_log].
  split; [by apply default_store_owns | done].
Qed.

(** Reading two owned configurations out gives the same tree at every
    depth, also at depths too small to reach the leaves. *)
Lemma owns_reify_eq n h c h' c' :
  owns h c → owns h' c' →
  reify n h (VRef (c_self c)) = reify n h' (VRef (c_self c')).
Proof.
  intros H H'. destruct n as [|[|[|n]]].
  - reflexivity.
  - destruct H as (Hs & _), H' as (Hs' & _).
    unfold reify. cbn [reify_value]. rewrite !reify_loc_unfold, Hs, Hs'.
    unfold options_attrs. rewrite !fmap_insert, !fmap_empty. reflexivity.
  - destruct H as (Hs & Hc & Ha & Hf & Hx & He & Hp),
             H' as (Hs' & Hc' & Ha' & Hf' & Hx' & He' & Hp').
    unfold reify. cbn [reify_value]. rewrite !reify_loc_unfold, Hs, Hs'.
    unfold options_attrs. rewrite !fmap_insert, !fmap_empty.
    cbn [reify_value].
    rewrite !reify_loc_unfold, Hc, Ha, Hf, Hx, He, Hc', Ha', Hf', Hx', He'.
    rewrite !fmap_insert, !fmap_empty. reflexivity.
  - rewrite (owns_reify n h c H), (owns_reify n h' c' H'). reflexivity.
Qed.

(** ** Repeated calls *)

Lemma bind_cells_disjoint (cs : list cells) i j ci cj l :
  NoDup (cs ≫= cells_list) →
  cs !! i = Some ci → cs !! j = Some cj → i ≠ j →
  l ∈ cells_list ci → l ∈ cells_list cj → False.
Proof.
  revert i j. induction cs as [|c cs IH]; intros i j Hnd Hi Hj Hij Hli Hlj.
  - discriminate Hi.
  - rewrite bind_cons in Hnd. apply NoDup_app in Hnd as (_ & Hdis & Hnd).
    destruct i as [|i], j as [|j]; cbn in Hi, Hj.
    + congruence.
    + injection Hi as ->. apply (Hdis l Hli).
      apply list_elem_of_bind. exists cj. split; [exact Hlj|].
      eapply list_elem_of_lookup_2. exact Hj.
    + injection Hj as ->. apply (Hdis l Hlj).
      apply list_elem_of_bind. exists ci. split; [exact Hli|].
      eapply list_elem_of_lookup_2. exact Hi.
    + apply (IH i j); auto.
Qed.

Lemma call_each_shape selfs s :
  wp (call_each selfs) s (fun rs s' =>
    ∃ cs, rs = (fun c => VRef (c_self c)) <$> cs ∧
          length cs = length selfs ∧
          NoDup (cs ≫= cells_list) ∧
          Forall (owns (heap s')) cs ∧
          (∀ l, l ∈ cs ≫= cells_list → heap s !! l = None) ∧
          heap s ⊆ heap s' ∧
          io_log s' = io_log s ∧
          ticks s' = (ticks s + 31 * length selfs)%nat).
Proof.
  revert s. induction selfs as [|self selfs IH]; intros s.
  - apply wp_ret. exists []. cbn [fmap list_fmap length call_each].
    split; [reflexivity|]. split; [reflexivity|]. split; [apply NoDup_nil_2|].
    split; [constructor|]. split.
    { intros l Hl. by apply elem_of_nil in Hl. }
    split; [reflexivity|]. split; [reflexivity|]. lia.
  - cbn [call_each]. apply wp_bind.
    destruct (call_returns self s) as (c & s1 & Hrun & Hfr & Hown & Hh & Hio & Ht).
    unfold wp at 1. rewrite Hrun.
    apply wp_bind. eapply wp_mono; [apply IH|].
    intros rs s' (cs & -> & Hlen & Hnd & Howns & Hfresh & Hsub & Hio' & Ht').
    apply wp_ret. exists (c :: cs).
    assert (heap s ⊆ heap s1) as Hsub1.
    { rewrite Hh. by apply final_store_extends. }
    split; [reflexivity|]. split; [cbn; lia|]. split.
    { rewrite bind_cons. apply NoDup_app. split; [apply Hfr|]. split; [|exact Hnd].
      intros l Hl Hl'. apply Hfresh in Hl'.
      destruct (owns_is_Some _ _ _ Hown Hl) as [o Ho]. congruence. }
    split.
    { constructor; [|exact Howns]. eapply owns_weaken; eauto. }
    split.
    { intros l. rewrite bind_cons, elem_of_app. intros [Hl|Hl].
      - destruct Hfr as [_ Hfr]. rewrite Forall_forall in Hfr. auto.
      - eapply lookup_weaken_None; [apply Hfresh, Hl | exact Hsub1]. }
    split; [by etrans|]. split; [congruence|]. cbn [length]. lia.
Qed.

Lemma call_each_selves_distinct (cs : list cells) :
  NoDup (cs ≫= cells_list) → NoDup ((fun c => VRef (c_self c)) <$> cs).
Proof.
  induction cs as [|c cs IH]; intros Hnd; [apply NoDup_nil_2|].
  rewrite bind_cons in Hnd. apply NoDup_app in Hnd as (_ & Hdis & Hnd).
  rewrite fmap_cons. apply NoDup_cons. split; [|by apply IH].
  intros Hin. apply list_elem_of_fmap in Hin as (c' & [= Heq] & Hc').
  apply (Hdis (c_self c)).
  - unfold cells_list, options_cells. apply elem_of_cons. by left.
  - apply list_elem_of_bind. exists c'. split; [|exact Hc'].
    rewrite Heq. unfold cells_list, options_cells. apply elem_of_cons. by left.
Qed.

(** ** Facts about the two literals *)

Lemma spec_preferences_dom :
  dom spec_preferences = list_to_set spec_preference_keys :> gset string.
Proof. reflexivity. Qed.

Lemma spec_preferences_size : size spec_preferences = 5%nat.
Proof. reflexivity. Qed.

Lemma spec_preference_keys_NoDup : NoDup spec_preference_keys.
Proof. unfold spec_preference_keys. nodup_list. Qed.

Lemma spec_flags_NoDup : NoDup spec_flags.
Proof. unfold spec_flags. nodup_list. Qed.

(** ** The method run on concrete stores *)

(** On the empty store the seven objects land at locations 1 to 7 and the
    instance at location 1 is returned. *)
Example call_on_empty_store :
  match get_chrome_options_with_disabled_popups VNone (State ∅ [] 0) with
  | Returned r s' =>
      r = VRef 1 ∧ size (heap s') = 7%nat ∧ ticks s' = 31%nat ∧ io_log s' = [] ∧
      argumentFlags (heap s') r = Some (VStr <$> spec_flags) ∧
      (p ← preferences (heap s') r;
       p !! "profile.default_content_setting_values.notifications") = Some (VInt 2)
  | Raised _ _ => False
  end.
Proof. vm_compute. do 5 (split; [reflexivity|]). reflexivity. Qed.

(** The failure path of [add_argument] is live: an empty flag is rejected. *)
Example add_argument_rejects_empty_flag :
  match Selenium.Options (State ∅ [] 0) with
  | Returned r s' =>
      Selenium.add_argument r (VStr "") s' =
      Raised (ValueError "argument can not be null") s'
  | Raised _ _ => False
  end.
Proof. vm_compute. reflexivity. Qed.

(** A receiver that is not an options object makes a bare attribute read
    fail, so the absence of exceptions is a property of the method and not
    of the monad. *)
Example getattr_on_none_raises :
  getattr VNone "_arguments" (State ∅ [] 0) =
  Raised (AttributeError "_arguments") (State ∅ [] 0).
Proof. reflexivity. Qed.

(** ** The properties of the specification *)

(** C1: after every call the preferences map of the returned configuration
    holds exactly the five keys of the table, [credentials_enable_service],
    [profile.password_manager_enabled],
    [profile.default_content_setting_values.notifications],
    [profile.password_manager_leak_detection] and
    [password_manager_leak_detection], mapped to [False], [False], [2],
    [False], [False], and no other key. *)
Theorem preferences_exactly_the_five_keys (self : value) (s : state) :
  ∃ r s' p,
    get_chrome_options_with_disabled_popups self s = Returned r s' ∧
    preferences (heap s') r = Some p ∧
    p !! "credentials_enable_service" = Some (VBool false) ∧
    p !! "profile.password_manager_enabled" = Some (VBool false) ∧
    p !! "profile.default_content_setting_values.notifications" = Some (VInt 2) ∧
    p !! "profile.password_manager_leak_detection" = Some (VBool false) ∧
    p !! "password_manager_leak_detection" = Some (VBool false) ∧
    dom p = list_to_set spec_preference_keys ∧
    NoDup spec_preference_keys ∧
    size p = 5%nat.
Proof.
  destruct (call_returns self s) as (c & s' & Hrun & _ & Hown & _).
  exists (VRef (c_self c)), s', spec_preferences.
  split; [exact Hrun|]. split; [by apply owns_preferences|].
  do 5 (split; [reflexivity|]).
  split; [apply spec_preferences_dom|].
  split; [apply spec_preference_keys_NoDup | apply spec_preferences_size].
Qed.

(** C2: after every call the argument flags of the returned configuration
    are, in order, the five literal flags; the sequence has length 5 and no
    flag occurs twice. *)
Theorem argument_flags_are_the_five_literals (self : value) (s : state) :
  ∃ r s' flags,
    get_chrome_options_with_disabled_popups self s = Returned r s' ∧
    argumentFlags (heap s') r = Some flags ∧
    flags = [ VStr "--disable-blink-features=AutomationControlled";
              VStr "--disable-extensions";
              VStr "--disable-popup-blocking";
              VStr "--disable-infobars";
              VStr "--disable-save-password-bubble" ] ∧
    length flags = 5%nat ∧
    NoDup flags.
Proof.
  destruct (call_returns self s) as (c & s' & Hrun & _ & Hown & _).
  exists (VRef (c_self c)), s', (VStr <$> spec_flags).
  split; [exact Hrun|]. split; [by apply owns_argumentFlags|].
  split; [reflexivity|]. split; [reflexivity|].
  apply NoDup_fmap_2; [|apply spec_flags_NoDup].
  intros x y [= ->]. reflexivity.
Qed.

(** C3: the factory is deterministic and pure.  Any two calls, from any two
    states and on any receivers, both return, and the two results read out
    as the same tree at every depth; a call performs no I/O, leaves every
    object that existed before it as it was, and every object it adds to
    the store is reachable from the value it returns. *)
Theorem factory_deterministic_and_pure (self1 self2 : value) (s1 s2 : state) :
  ∃ r1 s1' r2 s2',
    get_chrome_options_with_disabled_popups self1 s1 = Returned r1 s1' ∧
    get_chrome_options_with_disabled_popups self2 s2 = Returned r2 s2' ∧
    (∀ depth, reify depth (heap s1') r1 = reify depth (heap s2') r2) ∧
    io_log s1' = io_log s1 ∧
    heap s1 ⊆ heap s1' ∧
    (∀ l, heap s1 !! l = None → is_Some (heap s1' !! l) →
          reachable (heap s1') r1 l).
Proof.
  destruct (call_returns self1 s1) as (c1 & s1' & Hrun1 & Hfr1 & Hown1 & Hh1 & Hio1 & _).
  destruct (call_returns self2 s2) as (c2 & s2' & Hrun2 & _ & Hown2 & _).
  exists (VRef (c_self c1)), s1', (VRef (c_self c2)), s2'.
  split; [exact Hrun1|]. split; [exact Hrun2|].
  split; [intros n; by apply owns_reify_eq|].
  split; [exact Hio1|].
  split; [rewrite Hh1; by apply final_store_extends|].
  intros l Hpre Hnew. apply owns_reaches; [exact Hown1|].
  rewrite Hh1 in Hnew. eapply final_store_new; eauto.
Qed.

(** C4: every call yields a configuration whose preference
    [profile.default_content_setting_values.notifications] is [2] and whose
    argument flag at index 2, counting from zero, is
    [--disable-popup-blocking]. *)
Theorem notifications_blocked_and_third_flag (self : value) (s : state) :
  ∃ r s' p flags,
    get_chrome_options_with_disabled_popups self s = Returned r s' ∧
    preferences (heap s') r = Some p ∧
    p !! "profile.default_content_setting_values.notifications" = Some (VInt 2) ∧
    argumentFlags (heap s') r = Some flags ∧
    flags !! 2%nat = Some (VStr "--disable-popup-blocking").
Proof.
  destruct (call_returns self s) as (c & s' & Hrun & _ & Hown & _).
  exists (VRef (c_self c)), s', spec_preferences, (VStr <$> spec_flags).
  split; [exact Hrun|]. split; [by apply owns_preferences|].
  split; [reflexivity|]. split; [by apply owns_argumentFlags|].
  reflexivity.
Qed.

(** C5: calling the factory once per element of [selfs] returns as many
    results as calls.  The results are pairwise distinct objects, each reads
    out as the same configuration tree in the final store, no object is
    reachable from two different results, every object reachable from a
    result was created by the calls, and every object that existed before
    the calls is unchanged after them. *)
Theorem repeated_calls_fresh_and_value_equal (selfs : list value) (s : state) :
  ∃ rs s',
    call_each selfs s = Returned rs s' ∧
    length rs = length selfs ∧
    NoDup rs ∧
    Forall (fun r => ∀ n, reify (3 + n) (heap s') r = disabled_popups_tree) rs ∧
    (∀ i j ri rj l,
        i ≠ j → rs !! i = Some ri → rs !! j = Some rj →
        reachable (heap s') ri l → reachable (heap s') rj l → False) ∧
    (∀ r l, r ∈ rs → reachable (heap s') r l → heap s !! l = None) ∧
    heap s ⊆ heap s'.
Proof.
  pose proof (call_each_shape selfs s) as H. apply wp_returned in H.
  destruct H as (rs & s' & Hrun & cs & -> & Hlen & Hnd & Howns & Hfresh & Hsub & _).
  rewrite Forall_forall in Howns.
  exists ((fun c => VRef (c_self c)) <$> cs), s'.
  split; [exact Hrun|]. split; [by rewrite length_fmap|].
  split; [by apply call_each_selves_distinct|]. split.
  { rewrite Forall_forall. intros r Hr n.
    apply list_elem_of_fmap in Hr as (c & -> & Hc).
    apply owns_reify. auto. }
  split.
  { intros i j ri rj l Hij Hi Hj Hri Hrj.
    rewrite list_lookup_fmap in Hi, Hj.
    destruct (cs !! i) as [ci|] eqn:Hci; [|discriminate Hi].
    destruct (cs !! j) as [cj|] eqn:Hcj; [|discriminate Hj].
    injection Hi as <-. injection Hj as <-.
    apply (bind_cells_disjoint cs i j ci cj l); auto.
    - apply (owns_reachable (heap s')); [|exact Hri].
      apply Howns. eapply list_elem_of_lookup_2. exact Hci.
    - apply (owns_reachable (heap s')); [|exact Hrj].
      apply Howns. eapply list_elem_of_lookup_2. exact Hcj. }
  split; [|exact Hsub].
  intros r l Hr Hreach. apply list_elem_of_fmap in Hr as (c & -> & Hc).
  apply Hfresh. apply list_elem_of_bind. exists c. split; [|exact Hc].
  eapply owns_reachable; eauto.
Qed.

(** C6: the factory has no failure mode: from every state and on every
    receiver the call returns a value, and it raises no exception. *)
Theorem factory_never_raises (self : value) (s : state) :
  (∃ r s', get_chrome_options_with_disabled_popups self s = Returned r s') ∧
  (∀ e s', get_chrome_options_with_disabled_popups self s ≠ Raised e s').
Proof.
  destruct (call_returns self s) as (c & s' & Hrun & _).
  split; [eauto|]. intros e s'' Hraise. congruence.
Qed.

(** C7: in every returned configuration the keys
    [profile.password_manager_leak_detection] and
    [password_manager_leak_detection] are two different keys of the
    preferences map, both present and both mapped to the same value,
    [False]. *)
Theorem leak_detection_keys_both_kept (self : value) (s : state) :
  ∃ r s' p v,
    get_chrome_options_with_disabled_popups self s = Returned r s' ∧
    preferences (heap s') r = Some p ∧
    p !! "profile.password_manager_leak_detection" = Some v ∧
    p !! "password_manager_leak_detection" = Some v ∧
    v = VBool false ∧
    "profile.password_manager_leak_detection" ≠ "password_manager_leak_detection".
Proof.
  destruct (call_returns self s) as (c & s' & Hrun & _ & Hown & _).
  exists (VRef (c_self c)), s', spec_preferences, (VBool false).
  split; [exact Hrun|]. split; [by apply owns_preferences|].
  do 3 (split; [reflexivity|]). discriminate.
Qed.

(** C8: every call terminates: the embedded function is total and returns
    after exactly 31 primitive operations on the store, whatever the state
    and the receiver. *)
Theorem factory_returns_in_constant_steps (self : value) (s : state) :
  ∃ r s',
    get_chrome_options_with_disabled_popups self s = Returned r s' ∧
    ticks s' = (ticks s + 31)%nat.
Proof.
  destruct (call_returns self s) as (c & s' & Hrun & _ & _ & _ & _ & Ht).
  eauto.
Qed.

(** C9: the result does not depend on the receiver.  From one state, two
    receivers give the same outcome, final store included, so the receiver
    is never read; from any two states, on any two receivers, the two
    results read out as the same tree at every depth; and the call leaves
    every object that was in the store, the receiver's among them, as it
    was, so the receiver is never written. *)
Theorem result_independent_of_receiver (self1 self2 : value) (s1 s2 : state) :
  get_chrome_options_with_disabled_popups self1 s1 =
    get_chrome_options_with_disabled_popups self2 s1 ∧
  ∃ r1 s1' r2 s2',
    get_chrome_options_with_disabled_popups self1 s1 = Returned r1 s1' ∧
    get_chrome_options_with_disabled_popups self2 s2 = Returned r2 s2' ∧
    (∀ depth, reify depth (heap s1') r1 = reify depth (heap s2') r2) ∧
    heap s1 ⊆ heap s1' ∧
    heap s2 ⊆ heap s2'.
Proof.
  split; [reflexivity|].
  destruct (call_returns self1 s1) as (c1 & s1' & Hrun1 & Hfr1 & Hown1 & Hh1 & _).
  destruct (call_returns self2 s2) as (c2 & s2' & Hrun2 & Hfr2 & Hown2 & Hh2 & _).
  exists (VRef (c_self c1)), s1', (VRef (c_self c2)), s2'.
  split; [exact Hrun1|]. split; [exact Hrun2|].
  split; [intros n; by apply owns_reify_eq|].
  split; [rewrite Hh1 | rewrite Hh2]; by apply final_store_extends.
Qed.

Lemma owns_default_experimental_options h c :
  owns_default h c → experimental_options_of h (VRef (c_self c)) = Some ∅.
Proof.
  intros (Hs & _ & _ & _ & _ & He).
  unfold experimental_options_of, attrs_of. rewrite Hs. cbn [mbind option_bind].
  unfold options_attrs. rewrite lookup_insert_ne by done.
  rewrite lookup_insert_eq. cbn [mbind option_bind dict_of]. rewrite He.
  reflexivity.
Qed.

(** C10: the returned options object carries exactly one experimental
    option, keyed ["prefs"], where a bare [Options()] built from the same
    state carries none; read out as trees, the returned object and the bare
    one agree on every attribute other than the experimental options and
    the arguments. *)
Theorem only_prefs_and_arguments_leave_the_defaults (self : value) (s : state) :
  ∃ r s' r0 s0 e,
    get_chrome_options_with_disabled_popups self s = Returned r s' ∧
    Selenium.Options s = Returned r0 s0 ∧
    experimental_options_of (heap s') r = Some e ∧
    dom e = {[ "prefs" ]} ∧
    size e = 1%nat ∧
    experimental_options_of (heap s0) r0 = Some ∅ ∧
    ∀ n,
      reify (3 + n) (heap s0) r0 = options_tree ∅ [] ∧
      reify (3 + n) (heap s') r =
        options_tree {[ "prefs" := TDict preferences_tree ]} (TStr <$> spec_flags) ∧
      delete "_experimental_options"
        (delete "_arguments" (tree_attrs (reify (3 + n) (heap s') r))) =
      delete "_experimental_options"
        (delete "_arguments" (tree_attrs (reify (3 + n) (heap s0) r0))).
Proof.
  destruct (call_returns self s) as (c & s' & Hrun & _ & Hown & _).
  destruct (Options_returns s) as (c0 & s0 & Hrun0 & Hown0 & _).
  exists (VRef (c_self c)), s', (VRef (c_self c0)), s0,
    {[ "prefs" := VRef (c_prefs c) ]}.
  split; [exact Hrun|]. split; [exact Hrun0|].
  split; [by apply owns_experimental_options|].
  split; [apply dom_singleton_L|].
  split; [apply map_size_singleton|].
  split; [by apply owns_default_experimental_options|].
  intros n. cbn [Nat.add].
  rewrite (owns_default_reify n _ _ Hown0), (owns_reify n _ _ Hown).
  split; [reflexivity|]. split; [reflexivity|].
  reflexivity.
Qed.

(** ** The returned object in the hands of a caller *)

Lemma owns_insert_other h c l o :
  owns h c → l ∉ cells_list c → owns (<[l := o]> h) c.
Proof.
  intros (? & ? & ? & ? & ? & ? & ?) Hl.
  unfold cells_list, options_cells in Hl. cbn [app] in Hl.
  rewrite !not_elem_of_cons in Hl.
  unfold owns. rewrite !lookup_insert_ne by tauto.
  done.
Qed.

Lemma fresh_cells_None pre c l :
  fresh_cells pre c → l ∈ cells_list c → pre !! l = None.
Proof. intros [_ Hfr]. rewrite Forall_forall in Hfr. apply Hfr. Qed.

Lemma cells_list_args c : c_args c ∈ cells_list c.
Proof. unfold cells_list, options_cells. cbn [app]. rewrite !elem_of_cons. tauto. Qed.

Lemma cells_list_exp c : c_exp c ∈ cells_list c.
Proof. unfold cells_list, options_cells. cbn [app]. rewrite !elem_of_cons. tauto. Qed.

Lemma owns_attr_arguments h c :
  owns h c → options_attrs c !! "_arguments" = Some (VRef (c_args c)).
Proof. intros _. unfold options_attrs. lookup_attr. Qed.

Lemma owns_attr_experimental h c :
  owns h c → options_attrs c !! "_experimental_options" = Some (VRef (c_exp c)).
Proof. intros _. unfold options_attrs. lookup_attr. Qed.

Lemma fresh_cells_distinct pre c :
  fresh_cells pre c →
  c_args c ≠ c_self c ∧ c_exp c ≠ c_self c ∧ c_exp c ≠ c_args c ∧
  c_prefs c ≠ c_exp c ∧ c_prefs c ≠ c_args c.
Proof.
  intros [Hnd _]. destruct c as [l1 l2 l3 l4 l5 l6 l7].
  unfold cells_list, options_cells in Hnd.
  cbn [c_self c_caps c_args c_extf c_ext c_exp c_prefs app] in *.
  nodup_neqs Hnd. repeat split; congruence.
Qed.

(** X1: a caller may go on configuring the returned object: a further
    non-empty flag is accepted and lands after the five flags of the
    method, the preferences stay as the method set them, and the objects
    that were in the store before are untouched. *)
Theorem caller_can_append_a_flag (self : value) (s : state) (flag : string) :
  flag ≠ "" →
  ∃ r s',
    extended_by self flag s = Returned r s' ∧
    argumentFlags (heap s') r = Some ((VStr <$> spec_flags) ++ [VStr flag])%list ∧
    preferences (heap s') r = Some spec_preferences ∧
    heap s ⊆ heap s'.
Proof.
  intros Hflag.
  destruct (call_returns self s) as (c & s1 & Hrun & Hfr & Hown & Hh & _).
  destruct (fresh_cells_distinct _ _ Hfr) as (Has & Hes & Hea & Hpe & Hpa).
  assert (wp (extended_by self flag) s (fun r s' =>
            r = VRef (c_self c) ∧
            heap s' = <[c_args c := OList (the_flags ++ [VStr flag])%list]> (heap s1)))
    as Hwp.
  { unfold extended_by. apply wp_bind. unfold wp at 1. rewrite Hrun.
    apply wp_bind. eapply wp_add_argument;
      [exact Hflag | apply Hown | eapply owns_attr_arguments, Hown | apply Hown |].
    apply wp_ret. split; reflexivity. }
  apply wp_returned in Hwp. destruct Hwp as (r & s' & Hrun' & -> & Hs').
  exists (VRef (c_self c)), s'. split; [exact Hrun'|].
  pose proof Hown as (Hs & Hc & Ha & Hf & Hx & He & Hp).
  split.
  { unfold argumentFlags, attrs_of. rewrite Hs'.
    rewrite lookup_insert_ne by exact Has. rewrite Hs. cbn [mbind option_bind].
    rewrite (owns_attr_arguments _ _ Hown).
    cbn [mbind option_bind list_of]. rewrite lookup_insert_eq. reflexivity. }
  split.
  { unfold preferences, experimental_options_of, attrs_of. rewrite Hs'.
    rewrite lookup_insert_ne by exact Has. rewrite Hs. cbn [mbind option_bind].
    rewrite (owns_attr_experimental _ _ Hown).
    cbn [mbind option_bind dict_of]. rewrite lookup_insert_ne by congruence.
    rewrite He. cbn [mbind option_bind]. rewrite lookup_insert_eq.
    cbn [mbind option_bind dict_of]. rewrite lookup_insert_ne by congruence.
    rewrite Hp, dict_display_prefs. reflexivity. }
  rewrite Hs'. apply insert_subseteq_r.
  - eapply fresh_cells_None; [exact Hfr | apply cells_list_args].
  - rewrite Hh. by apply final_store_extends.
Qed.

Lemma argumentFlags_read h c xs :
  h !! c_self c = Some (OInstance "Options" (options_attrs c)) →
  h !! c_args c = Some (OList xs) →
  argumentFlags h (VRef (c_self c)) = Some xs.
Proof.
  intros Hs Ha. unfold argumentFlags, attrs_of. rewrite Hs.
  cbn [mbind option_bind]. unfold options_attrs.
  rewrite !lookup_insert_ne by done. rewrite lookup_insert_eq.
  cbn [mbind option_bind list_of]. rewrite Ha. reflexivity.
Qed.

Lemma experimental_options_read h c d :
  h !! c_self c = Some (OInstance "Options" (options_attrs c)) →
  h !! c_exp c = Some (ODict d) →
  experimental_options_of h (VRef (c_self c)) = Some d.
Proof.
  intros Hs He. unfold experimental_options_of, attrs_of. rewrite Hs.
  cbn [mbind option_bind]. unfold options_attrs.
  rewrite lookup_insert_ne by done. rewrite lookup_insert_eq.
  cbn [mbind option_bind dict_of]. rewrite He. reflexivity.
Qed.

(** Objects of a later call are not objects of an earlier one. *)
Lemma later_cells_apart h c1 pre c2 l :
  owns h c1 → h = pre → fresh_cells pre c2 →
  l ∈ cells_list c1 → l ∉ cells_list c2.
Proof.
  intros Hown -> Hfr Hl Hl'.
  destruct (owns_is_Some _ _ _ Hown Hl) as [o Ho].
  rewrite (fresh_cells_None _ _ _ Hfr Hl') in Ho. discriminate.
Qed.

Lemma owns_customised h c xs d :
  NoDup (cells_list c) → owns h c →
  owns_with (<[c_exp c := ODict d]> (<[c_args c := OList xs]> h)) c xs d.
Proof.
  intros Hnd (Hs & Hc & Ha & Hf & Hx & He & Hp).
  destruct c as [l1 l2 l3 l4 l5 l6 l7].
  unfold cells_list, options_cells in Hnd.
  cbn [c_self c_caps c_args c_extf c_ext c_exp c_prefs app] in *.
  nodup_neqs Hnd. unfold owns_with.
  cbn [c_self c_caps c_args c_extf c_ext c_exp c_prefs].
  repeat split; lookup_heap; assumption.
Qed.

(** The cells stay closed under references as long as the caller's list
    and dictionary only refer to the cells themselves. *)
Lemma owns_with_closed h c xs d l l' :
  owns_with h c xs d →
  (∀ x, VRef x ∈ xs → x ∈ cells_list c) →
  (∀ k x, d !! k = Some (VRef x) → x ∈ cells_list c) →
  l ∈ cells_list c → points_to h l l' → l' ∈ cells_list c.
Proof.
  intros (Hs & Hc & Ha & Hf & Hx & He & Hp) Hxs Hd Hl (o & Ho & Hin).
  assert (∀ k x, options_attrs c !! k = Some (VRef x) → x ∈ cells_list c) as Hattrs.
  { intros k x Hk. unfold options_attrs in Hk.
    unfold cells_list, options_cells. cbn [app].
    repeat (rewrite lookup_insert in Hk; case_decide;
            [injection Hk as <- || discriminate Hk; rewrite !elem_of_cons; tauto|]).
    rewrite lookup_empty in Hk. discriminate. }
  unfold cells_list, options_cells in Hl. cbn [app] in Hl.
  in_list Hl.
  - rewrite Hs in Ho. injection Ho as <-. cbn [object_refs] in Hin.
    apply elem_of_dict_refs in Hin as (k & Hk). eauto.
  - rewrite Hc in Ho. injection Ho as <-. cbn [object_refs] in Hin.
    apply elem_of_dict_refs in Hin as (k & Hk). unfold caps_dict, dict_display in Hk.
    cbn [foldl Selenium.DesiredCapabilities_CHROME fst snd] in Hk.
    repeat (rewrite lookup_insert in Hk; case_decide; [discriminate Hk|]).
    rewrite lookup_empty in Hk. discriminate.
  - rewrite Ha in Ho. injection Ho as <-. cbn [object_refs] in Hin.
    apply elem_of_list_refs in Hin. auto.
  - rewrite Hf in Ho. injection Ho as <-. cbn in Hin. by apply elem_of_nil in Hin.
  - rewrite Hx in Ho. injection Ho as <-. cbn in Hin. by apply elem_of_nil in Hin.
  - rewrite He in Ho. injection Ho as <-. cbn [object_refs] in Hin.
    apply elem_of_dict_refs in Hin as (k & Hk). eauto.
  - rewrite Hp in Ho. injection Ho as <-. cbn [object_refs] in Hin.
    apply elem_of_dict_refs in Hin as (k & Hk). unfold dict_display in Hk.
    cbn [foldl prefs_literal fst snd] in Hk.
    repeat (rewrite lookup_insert in Hk; case_decide; [discriminate Hk|]).
    rewrite lookup_empty in Hk. discriminate.
Qed.

Lemma owns_with_reachable h c xs d l :
  owns_with h c xs d →
  (∀ x, VRef x ∈ xs → x ∈ cells_list c) →
  (∀ k x, d !! k = Some (VRef x) → x ∈ cells_list c) →
  reachable h (VRef (c_self c)) l → l ∈ cells_list c.
Proof.
  intros Hown Hxs Hd (r & [= <-] & Hrtc).
  assert (c_self c ∈ cells_list c) as Hin.
  { unfold cells_list, options_cells. apply elem_of_cons. by left. }
  revert Hrtc Hin. generalize (c_self c). intros x Hrtc.
  induction Hrtc as [x | x y z Hxy _ IH]; intros Hx; [exact Hx|].
  apply IH. eapply owns_with_closed; eauto.
Qed.

(** X2: two configurations obtained from the library share no mutable
    state.  After a caller adds a flag and an experimental option with an
    immediate value to the first one, the first shows both changes, the
    second still holds exactly the five flags and the five preferences and
    reads out as the configuration the method builds, and no object of the
    store is reachable from both results. *)
Theorem customising_one_result_leaves_the_other
    (self1 self2 : value) (s : state) (flag name : string) (v : value) :
  flag ≠ "" →
  value_refs v = [] →
  ∃ r1 r2 s' e,
    customise_first self1 self2 flag name v s = Returned (r1, r2) s' ∧
    r1 ≠ r2 ∧
    argumentFlags (heap s') r1 = Some ((VStr <$> spec_flags) ++ [VStr flag])%list ∧
    experimental_options_of (heap s') r1 = Some e ∧
    e !! name = Some v ∧
    argumentFlags (heap s') r2 = Some (VStr <$> spec_flags) ∧
    preferences (heap s') r2 = Some spec_preferences ∧
    (∀ n, reify (3 + n) (heap s') r2 = disabled_popups_tree) ∧
    (∀ l, reachable (heap s') r1 l → reachable (heap s') r2 l → False).
Proof.
  intros Hflag Himm.
  destruct (call_returns self1 s) as (c1 & s1 & Hrun1 & Hfr1 & Hown1 & Hh1 & _).
  destruct (call_returns self2 s1) as (c2 & s2 & Hrun2 & Hfr2 & Hown2 & Hh2 & _).
  destruct (fresh_cells_distinct _ _ Hfr1) as (Has & Hes & Hea & _).
  assert (owns (heap s2) c1) as Hown1'.
  { eapply owns_weaken; [exact Hown1|]. rewrite Hh2. by apply final_store_extends. }
  pose proof Hown1' as (Hs & _ & Ha & _ & _ & He & _).
  set (xs := (the_flags ++ [VStr flag])%list).
  set (d := <[name := v]> (<["prefs" := VRef (c_prefs c1)]> ∅) : gmap string value).
  set (h' := <[c_exp c1 := ODict d]> (<[c_args c1 := OList xs]> (heap s2))).
  assert (wp (customise_first self1 self2 flag name v) s (fun r s' =>
            r = (VRef (c_self c1), VRef (c_self c2)) ∧ heap s' = h')) as Hwp.
  { unfold customise_first. apply wp_bind. unfold wp at 1. rewrite Hrun1.
    apply wp_bind. unfold wp at 1. rewrite Hrun2.
    apply wp_bind. eapply wp_add_argument;
      [exact Hflag | exact Hs | eapply owns_attr_arguments, Hown1' | exact Ha |].
    apply wp_bind. eapply wp_add_experimental_option.
    - cbn [heap]. rewrite lookup_insert_ne by exact Has. exact Hs.
    - eapply owns_attr_experimental, Hown1'.
    - cbn [heap]. rewrite lookup_insert_ne by congruence. exact He.
    - apply wp_ret. split; reflexivity. }
  apply wp_returned in Hwp. destruct Hwp as (r & s' & Hrun & -> & Hs').
  assert (owns (heap s') c2) as Hown2'.
  { rewrite Hs'. unfold h'.
    apply owns_insert_other;
      [apply owns_insert_other; [exact Hown2|] |].
    - eapply later_cells_apart; [exact Hown1 | reflexivity | exact Hfr2 |].
      apply cells_list_args.
    - eapply later_cells_apart; [exact Hown1 | reflexivity | exact Hfr2 |].
      apply cells_list_exp. }
  assert (owns_with (heap s') c1 xs d) as Hwith.
  { rewrite Hs'. unfold h'. apply owns_customised; [apply Hfr1 | exact Hown1']. }
  exists (VRef (c_self c1)), (VRef (c_self c2)), s', d.
  split; [exact Hrun|]. split.
  { intros [= Heq].
    apply (later_cells_apart _ c1 _ c2 (c_self c1) Hown1 eq_refl Hfr2).
    - unfold cells_list, options_cells. apply elem_of_cons. by left.
    - rewrite Heq. unfold cells_list, options_cells. apply elem_of_cons. by left. }
  split; [apply argumentFlags_read; apply Hwith|].
  split; [apply experimental_options_read; apply Hwith|].
  split; [apply lookup_insert_eq|].
  split; [by apply owns_argumentFlags|].
  split; [by apply owns_preferences|].
  split; [intros n; by apply owns_reify|].
  intros l Hl1 Hl2.
  apply (later_cells_apart _ c1 _ c2 l Hown1 eq_refl Hfr2).
  - apply (owns_with_reachable (heap s') c1 xs d); [exact Hwith | | | exact Hl1].
    + intros x Hx. unfold xs, the_flags in Hx. cbn [app] in Hx.
      repeat (apply elem_of_cons in Hx as [Hx'|Hx]; [discriminate Hx'|]).
      by apply elem_of_nil in Hx.
    + intros k x Hk. unfold d in Hk.
      rewrite lookup_insert in Hk. case_decide.
      * injection Hk as ->. cbn in Himm. discriminate Himm.
      * rewrite lookup_insert in Hk. case_decide.
        -- injection Hk as <-. unfold cells_list, options_cells. cbn [app].
           rewrite !elem_of_cons. tauto.
        -- rewrite lookup_empty in Hk. discriminate.
  - eapply owns_reachable; eauto.
Qed.

Lemma caller_can_append_a_flag_witness :
  "--headless" ≠ "" ∧
  ∃ r s',
    extended_by VNone "--headless" (State ∅ [] 0) = Returned r s' ∧
    argumentFlags (heap s') r = Some ((VStr <$> spec_flags) ++ [VStr "--headless"])%list ∧
    preferences (heap s') r = Some spec_preferences ∧
    heap (State ∅ [] 0) ⊆ heap s'.
Proof.
  split; [discriminate|].
  apply (caller_can_append_a_flag VNone (State ∅ [] 0) "--headless"). discriminate.
Defined.

Lemma customising_one_result_leaves_the_other_witness :
  "--headless" ≠ "" ∧
  value_refs (VBool true) = [] ∧
  ∃ r1 r2 s' e,
    customise_first VNone VNone "--headless" "detach" (VBool true) (State ∅ [] 0)
      = Returned (r1, r2) s' ∧
    r1 ≠ r2 ∧
    argumentFlags (heap s') r1 = Some ((VStr <$> spec_flags) ++ [VStr "--headless"])%list ∧
    experimental_options_of (heap s') r1 = Some e ∧
    e !! "detach" = Some (VBool true) ∧
    argumentFlags (heap s') r2 = Some (VStr <$> spec_flags) ∧
    preferences (heap s') r2 = Some spec_preferences ∧
    (∀ n, reify (3 + n) (heap s') r2 = disabled_popups_tree) ∧
    (∀ l, reachable (heap s') r1 l → reachable (heap s') r2 l → False).
Proof.
  split; [discriminate|]. split; [reflexivity|].
  apply (customising_one_result_leaves_the_other
           VNone VNone (State ∅ [] 0) "--headless" "detach" (VBool true)).
  - discriminate.
  - reflexivity.
Defined.

(** C10, as worded, fails: on the empty store the returned object and a bare
    [Options()] differ in an attribute other than the experimental options,
    the arguments list, which holds the five flags in the one and nothing
    in the other. *)
Lemma every_other_field_at_default_fails :
  ∃ r s' r0 s0,
    get_chrome_options_with_disabled_popups VNone (State ∅ [] 0) = Returned r s' ∧
    Selenium.Options (State ∅ [] 0) = Returned r0 s0 ∧
    tree_attrs (reify 3 (heap s') r) !! "_arguments" = Some (TList (TStr <$> spec_flags)) ∧
    tree_attrs (reify 3 (heap s0) r0) !! "_arguments" = Some (TList []) ∧
    delete "_experimental_options" (tree_attrs (reify 3 (heap s') r)) ≠
    delete "_experimental_options" (tree_attrs (reify 3 (heap s0) r0)).
Proof.
  destruct (call_returns VNone (State ∅ [] 0)) as (c & s' & Hrun & _ & Hown & _).
  destruct (Options_returns (State ∅ [] 0)) as (c0 & s0 & Hrun0 & Hown0 & _).
  exists (VRef (c_self c)), s', (VRef (c_self c0)), s0.
  split; [exact Hrun|]. split; [exact Hrun0|].
  rewrite (owns_reify 0 _ _ Hown), (owns_default_reify 0 _ _ Hown0).
  split; [reflexivity|]. split; [reflexivity|].
  intros Heq. apply (f_equal (fun m => m !! "_arguments")) in Heq.
  rewrite !lookup_delete_ne in Heq by done.
  assert (tree_attrs disabled_popups_tree !! "_arguments"
          = Some (TList (TStr <$> spec_flags))) as E1 by reflexivity.
  assert (tree_attrs (options_tree ∅ []) !! "_arguments" = Some (TList [])) as E2
    by reflexivity.
  rewrite E1, E2 in Heq. discriminate Heq.
Qed.
